(** * The draw.io CSV exporter of [cdk/lib/cdk-stack.ts]

    A shallow embedding of the diagram code of the CDK stack: the class
    [AwsResource] with its two subclasses, the template literal that
    builds [drawioCsv] (in the class-based and in the flat version of the
    file), and a small model of the object store in which the classes are
    used, followed by the properties of the exporter. *)

From Stdlib Require Import Ascii.
From stdpp Require Import base option list gmap strings.

(** ** Strings as the source uses them *)

(** The two characters a Rocq literal cannot hold directly. *)
Definition nl_char : ascii := "010"%char.
Definition quote_char : ascii := "034"%char.
Definition comma_char : ascii := ","%char.

Definition nl : string := String nl_char "".
Definition dq : string := String quote_char "".
Definition comma : string := String comma_char "".

(** [Array.prototype.join] on an array of strings: the elements in order
    with [sep] between two neighbours, the empty string for the empty
    array. *)
Fixpoint join (sep : string) (xs : list string) : string :=
  match xs with
  | [] => ""
  | [x] => x
  | x :: rest => x +:+ sep +:+ join sep rest
  end.

(** ** class AwsResource *)

Record AwsResource : Type := mkAwsResource {
  name : string;
  fill : string;
  stroke : string;
  shape : string;
  refs : list string
}.

(** [constructor(name, fill, stroke, shape)]: the four fields as given and
    [this.refs = []]. *)
Definition new_AwsResource (name fill stroke shape : string) : AwsResource :=
  {| name := name; fill := fill; stroke := stroke; shape := shape; refs := [] |}.

(** [addRef(ref) { this.refs.push(ref); }], the receiver passed and
    returned explicitly. *)
Definition addRef (self : AwsResource) (ref : string) : AwsResource :=
  {| name := name self; fill := fill self; stroke := stroke self;
     shape := shape self; refs := refs self ++ [ref] |}.

(** [toCsvLine()]: [refsString = this.refs.join(',')] and the five fields
    of the template literal. *)
Definition toCsvLine (self : AwsResource) : string :=
  let refsString := join comma (refs self) in
  name self +:+ comma +:+ fill self +:+ comma +:+ stroke self +:+ comma
    +:+ shape self +:+ comma +:+ refsString.

(** [class Ec2Instance extends AwsResource] *)
Definition Ec2Instance (name : string) : AwsResource :=
  new_AwsResource name "#ED7100" "#ffffff" "mxgraph.aws4.ec2".

(** [class ApplicationLoadBalancer extends AwsResource] *)
Definition ApplicationLoadBalancer (name : string) : AwsResource :=
  new_AwsResource name "#8C4FFF" "#ffffff" "mxgraph.aws4.application_load_balancer".

(** The two subclasses as a closed enumeration of resource kinds:
    [ComputeInstance] is class [Ec2Instance], [LoadBalancer] is class
    [ApplicationLoadBalancer]. *)
Inductive ResourceKind : Type :=
  | ComputeInstance
  | LoadBalancer.

(** [new K(name)] for the subclass [K] of the kind. *)
Definition construct (k : ResourceKind) (name : string) : AwsResource :=
  match k with
  | ComputeInstance => Ec2Instance name
  | LoadBalancer => ApplicationLoadBalancer name
  end.

(** The style triple a node carries. *)
Definition style (r : AwsResource) : string * string * string :=
  (fill r, stroke r, shape r).

(** ** The template literal of [drawioCsv] *)

(** The directive lines of the literal, one per source line. *)
Definition directive_lines : list string :=
  [ "## Simple web server AWS diagram";
    "# label: %component%";
    "# style: shape=%shape%;fillColor=%fill%;strokeColor=%stroke%;verticalLabelPosition=bottom;";
    "# namespace: csvimport-";
    "# connect: {" +:+ dq +:+ "from" +:+ dq +:+ ":" +:+ dq +:+ "refs" +:+ dq
      +:+ ", " +:+ dq +:+ "to" +:+ dq +:+ ":" +:+ dq +:+ "component" +:+ dq
      +:+ ", " +:+ dq +:+ "invert" +:+ dq +:+ ":true, " +:+ dq +:+ "style" +:+ dq
      +:+ ":" +:+ dq
      +:+ "curved=0;endArrow=block;endFill=0;dashed=1;strokeColor=#6c8ebf;"
      +:+ dq +:+ "}";
    "# width: 80";
    "# height: 80";
    "# ignore: refs";
    "# nodespacing: 40";
    "# levelspacing: 40";
    "# edgespacing: 40";
    "# layout: horizontaltree";
    "## CSV data starts below this line" ].

Definition column_line : string := "component,fill,stroke,shape,refs".

(** The literal text from the opening backquote up to the first
    interpolation: the line break after the backquote, the directive
    lines and the column line, each ended by a line break. *)
Definition template_head : string :=
  Eval cbv in
    nl +:+ join nl directive_lines +:+ nl +:+ column_line +:+ nl.

(** Class-based version: the rows are
    [resources.map(resource => resource.toCsvLine()).join('\n')], and the
    literal closes on a line of its own. *)
Definition drawioCsv (resources : list AwsResource) : string :=
  template_head +:+ join nl (map toCsvLine resources) +:+ nl.

(** The body of the stack's constructor, class-based version, from
    [const resources: AwsResource[] = []] to the value of [drawioCsv]; the
    two identifiers come from the provisioning constructs. *)
Definition CdkStack_drawioCsv (instanceId loadBalancerName : string) : string :=
  let resources : list AwsResource := [] in
  let ec2Model := Ec2Instance instanceId in
  let albModel := ApplicationLoadBalancer loadBalancerName in
  let ec2Model := addRef ec2Model (name albModel) in
  let resources := resources ++ [ec2Model; albModel] in
  drawioCsv resources.

(** Flat version: three local variables interpolated in two literal rows. *)
Definition CdkStack_drawioCsv_flat (instanceId loadBalancerName : string) : string :=
  let albName := loadBalancerName in
  let ec2Name := instanceId in
  let ec2Refs := albName in
  template_head
    +:+ albName +:+ ",#8C4FFF,#ffffff,mxgraph.aws4.application_load_balancer," +:+ nl
    +:+ ec2Name +:+ ",#ED7100,#ffffff,mxgraph.aws4.ec2," +:+ ec2Refs +:+ nl.

(** ** Completions and the object store *)

(** How a call ends: normally with a value, or by a throw.  The first
    three errors are the ones the specification names; the source has no
    [throw] statement and none of its operations produces them.
    [TypeError] is what JavaScript raises for a method call on a variable
    that holds no object. *)
Inductive Error : Type :=
  | InvalidNameError
  | UnknownTargetError
  | UnknownKindError
  | TypeError.

Inductive completion (A : Type) : Type :=
  | Normal (a : A)
  | Throw (e : Error).
Arguments Normal {A} a.
Arguments Throw {A} e.

(** The objects of one run of the diagram code: [heap] holds the
    [AwsResource] objects in the order they were constructed (an object
    is referred to by its position), [resources] is the array of the
    source, holding references to objects and not copies. *)
Record Session : Type := mkSession {
  heap : list AwsResource;
  resources : list nat
}.

Definition empty_session : Session := {| heap := []; resources := [] |}.

(** Computations over the store that may throw. *)
Definition M (A : Type) : Type := Session → completion (A * Session).

Definition ret {A} (a : A) : M A := λ s, Normal (a, s).

Definition bind {A B} (m : M A) (f : A → M B) : M B :=
  λ s, match m s with
       | Normal (a, s') => f a s'
       | Throw e => Throw e
       end.

Notation "'let!' x ':=' m 'in' k" := (bind m (λ x, k))
  (at level 10, x name, m at level 100, k at level 200).
Notation "'do!' m 'in' k" := (bind m (λ _, k))
  (at level 10, m at level 100, k at level 200).

(** Reading the object a variable holds. *)
Definition deref (h : nat) : M AwsResource :=
  λ s, match heap s !! h with
       | Some o => Normal (o, s)
       | None => Throw TypeError
       end.

(** In-place update of an object; every reference to it sees the
    update. *)
Definition update (h : nat) (o : AwsResource) : M unit :=
  λ s, Normal (tt, {| heap := <[h := o]> (heap s); resources := resources s |}).

(** A [new] expression: the fresh object goes to the end of the heap. *)
Definition alloc (o : AwsResource) : M nat :=
  λ s, Normal (length (heap s),
               {| heap := heap s ++ [o]; resources := resources s |}).

Fixpoint mapM_st {A B} (f : A → M B) (xs : list A) : M (list B) :=
  match xs with
  | [] => ret []
  | x :: rest =>
      let! y := f x in
      let! ys := mapM_st f rest in
      ret (y :: ys)
  end.

(** The calls of the three members, on the store. *)
Definition new_m (k : ResourceKind) (name : string) : M nat :=
  alloc (construct k name).

Definition addRef_m (h : nat) (ref : string) : M unit :=
  let! self := deref h in update h (addRef self ref).

Definition toCsvLine_m (h : nat) : M string :=
  let! self := deref h in ret (toCsvLine self).

(** [resources.push(x, ...)]: each argument is evaluated, then the
    references are appended. *)
Definition push_m (hs : list nat) : M unit :=
  do! mapM_st deref hs in
  λ s, Normal (tt, {| heap := heap s; resources := resources s ++ hs |}).

(** The value of [drawioCsv]: the template literal, its interpolation
    calling [toCsvLine] on every element of [resources]. *)
Definition read_resources : M (list nat) := λ s, Normal (resources s, s).

Definition render : M string :=
  let! hs := read_resources in
  let! rows := mapM_st toCsvLine_m hs in
  ret (template_head +:+ join nl rows +:+ nl).

(** The argument of [addRef]: a string at hand, or the [name] field of an
    object, as in [ec2Model.addRef(albModel.name)]. *)
Inductive Arg : Type :=
  | Lit (s : string)
  | NameOf (h : nat).

Definition eval_arg (a : Arg) : M string :=
  match a with
  | Lit s => ret s
  | NameOf h => let! o := deref h in ret (name o)
  end.

(** The statements a run of the diagram code is made of; variables are
    numbered in the order of their [new] expressions. *)
Inductive Stmt : Type :=
  | SNew (k : ResourceKind) (name : string)
  | SAddRef (h : nat) (target : Arg)
  | SPush (hs : list nat).

Definition exec (st : Stmt) : M unit :=
  match st with
  | SNew k n => do! new_m k n in ret tt
  | SAddRef h a =>
      (* the receiver is looked up before the argument is evaluated *)
      do! deref h in
      let! ref := eval_arg a in
      addRef_m h ref
  | SPush hs => push_m hs
  end.

Fixpoint run (p : list Stmt) : M unit :=
  match p with
  | [] => ret tt
  | st :: rest => do! exec st in run rest
  end.

(** The statements of the stack's constructor, class-based version. *)
Definition CdkStack_program (instanceId loadBalancerName : string) : list Stmt :=
  [ SNew ComputeInstance instanceId;
    SNew LoadBalancer loadBalancerName;
    SAddRef 0 (NameOf 1);
    SPush [0; 1] ].

(** ** Reading the CSV text back *)

(** The pieces of [s] between occurrences of the character [c]. *)
Fixpoint split_on (c : ascii) (s : string) : list string :=
  match s with
  | EmptyString => [""]
  | String a rest =>
      if Ascii.eqb a c then "" :: split_on c rest
      else match split_on c rest with
           | [] => [String a ""]
           | piece :: pieces => String a piece :: pieces
           end
  end.

Fixpoint contains (c : ascii) (s : string) : bool :=
  match s with
  | EmptyString => false
  | String a rest => Ascii.eqb a c || contains c rest
  end.

Definition nonempty (s : string) : bool := negb (String.eqb s "").

Definition lines (csv : string) : list string := split_on nl_char csv.

(** The lines after the column line. *)
Fixpoint after_column_line (ls : list string) : list string :=
  match ls with
  | [] => []
  | l :: rest => if String.eqb l column_line then rest else after_column_line rest
  end.

(** The data rows of a CSV text: the lines below the column line, blank
    lines skipped. *)
Definition data_rows (csv : string) : list string :=
  List.filter nonempty (after_column_line (lines csv)).

(** The first field of a row. *)
Definition component_of (row : string) : string :=
  hd "" (split_on comma_char row).

(** What follows the fourth comma of a row, split at commas. *)
Definition refs_of (row : string) : list string :=
  List.filter nonempty (drop 4 (split_on comma_char row)).

Definition component_column (csv : string) : list string :=
  map component_of (data_rows csv).

Definition refs_column (csv : string) : list string :=
  concat (map refs_of (data_rows csv)).

(** ** Names without delimiters, and sessions that respect them *)

(** Non-empty, no comma, no line break. *)
Definition valid_name (n : string) : bool :=
  nonempty n && negb (contains comma_char n) && negb (contains nl_char n).

(** The names a program passes to the constructors. *)
Definition names_passed (p : list Stmt) : list string :=
  omap (λ st, match st with SNew _ n => Some n | _ => None end) p.

Definition in_names (n : string) (ns : list string) : bool :=
  existsb (String.eqb n) ns.

Definition valid_arg (issued : list string) (a : Arg) : bool :=
  match a with
  | Lit t => in_names t issued
  | NameOf h => bool_decide (h < length issued)
  end.

(** A program is valid from the names [issued] so far and the variables
    [pushed] so far when every constructed name is valid, every variable
    it uses has been declared, every [addRef] names a node constructed
    before it, and at the end every constructed node has been pushed. *)
Fixpoint valid_program (issued : list string) (pushed : list nat)
    (p : list Stmt) : bool :=
  match p with
  | [] => forallb (λ h, bool_decide (h ∈ pushed)) (seq 0 (length issued))
  | SNew _ n :: rest => valid_name n && valid_program (issued ++ [n]) pushed rest
  | SAddRef h a :: rest =>
      bool_decide (h < length issued) && valid_arg issued a
        && valid_program issued pushed rest
  | SPush hs :: rest =>
      forallb (λ h, bool_decide (h < length issued)) hs
        && valid_program issued (pushed ++ hs) rest
  end.

(** Build, then render: the whole run of a program up to the value of
    [drawioCsv]. *)
Definition build_then_render (p : list Stmt) : M string :=
  do! run p in render.

(** The objects the array [resources] refers to, in the order of the
    array. *)
Definition resource_objects (s : Session) : list AwsResource :=
  omap (λ h, heap s !! h) (resources s).

(** The scenario of a load balancer constructed first and an instance
    that references it. *)
Definition scenario_A : list Stmt :=
  [ SNew LoadBalancer "alb-1";
    SNew ComputeInstance "i-1";
    SAddRef 1 (Lit "alb-1");
    SPush [0; 1] ].

(** The store after the statements of [scenario_A]. *)
Definition session_A : Session :=
  {| heap := [ ApplicationLoadBalancer "alb-1";
               addRef (Ec2Instance "i-1") "alb-1" ];
     resources := [0; 1] |}.

(** A store with the single node i-1, before and after a reference to a
    name that no node has. *)
Definition session_i1 : Session :=
  {| heap := [Ec2Instance "i-1"]; resources := [] |}.

Definition session_i1_ghost : Session :=
  {| heap := [addRef (Ec2Instance "i-1") "ghost"]; resources := [] |}.

(** The two rows of the stack's diagram, as both versions of the file
    spell them. *)
Definition instance_row (instanceId loadBalancerName : string) : string :=
  instanceId +:+ ",#ED7100,#ffffff,mxgraph.aws4.ec2," +:+ loadBalancerName.

Definition balancer_row (loadBalancerName : string) : string :=
  loadBalancerName +:+ ",#8C4FFF,#ffffff,mxgraph.aws4.application_load_balancer,".

(** The style triple of each kind, read off the two [super(...)] calls. *)
Definition kind_style (k : ResourceKind) : string * string * string :=
  style (construct k "").

(** A style field that can stand in a row: no comma, no line break. *)
Definition field_ok (x : string) : bool :=
  negb (contains comma_char x) && negb (contains nl_char x).

(** A node whose row reads back: a valid name, style fields without
    delimiters, and valid names as references. *)
Definition node_ok (o : AwsResource) : Prop :=
  valid_name (name o) = true
  ∧ field_ok (fill o) = true
  ∧ field_ok (stroke o) = true
  ∧ field_ok (shape o) = true
  ∧ Forall (λ r, valid_name r = true) (refs o).

(** Every reference in [resources] points to an object. *)
Definition handles_ok (s : Session) : Prop :=
  Forall (λ h, h < length (heap s)) (resources s).

(** The store after a valid prefix of a program that issued the names
    [issued] and pushed the variables [pushed]. *)
Definition session_ok (issued : list string) (pushed : list nat)
    (s : Session) : Prop :=
  map name (heap s) = issued
  ∧ Forall node_ok (heap s)
  ∧ Forall (λ o, Forall (λ r, r ∈ issued) (refs o)) (heap s)
  ∧ resources s = pushed
  ∧ Forall (λ h, h < length issued) pushed.

(** What a later state of a node may differ in: the name and the style
    are the same, the references are the old ones with more at the end. *)
Definition node_grows (o o' : AwsResource) : Prop :=
  name o' = name o ∧ style o' = style o ∧ refs o `prefix_of` refs o'.

(** A later state of the store: every object is still at its place and
    has only grown, and the array has only been extended. *)
Definition session_grows (s s' : Session) : Prop :=
  (∀ h o, heap s !! h = Some o →
          ∃ o', heap s' !! h = Some o' ∧ node_grows o o')
  ∧ resources s `prefix_of` resources s'.

(** A node none of whose fields or references holds a comma. *)
Definition comma_free (o : AwsResource) : Prop :=
  contains comma_char (name o) = false
  ∧ contains comma_char (fill o) = false
  ∧ contains comma_char (stroke o) = false
  ∧ contains comma_char (shape o) = false
  ∧ Forall (λ r, contains comma_char r = false) (refs o).

(** * Properties *)

(** ** Strings *)

Section StringFacts.

(** The two equations of [+:+]. *)
Lemma str_app_nil_l (s : string) : "" +:+ s = s.
Proof. reflexivity. Qed.

Lemma str_app_cons (a : ascii) (s t : string) :
  String a s +:+ t = String a (s +:+ t).
Proof. reflexivity. Qed.

Lemma str_app_nil_r (s : string) : s +:+ "" = s.
Proof.
  induction s as [|a s IH]; [done |]. by rewrite str_app_cons, IH.
Qed.

Lemma str_app_assoc (s1 s2 s3 : string) :
  (s1 +:+ s2) +:+ s3 = s1 +:+ (s2 +:+ s3).
Proof.
  induction s1 as [|a s1 IH]; [done |]. by rewrite !str_app_cons, IH.
Qed.

Lemma contains_app (c : ascii) (s1 s2 : string) :
  contains c (s1 +:+ s2) = contains c s1 || contains c s2.
Proof.
  induction s1 as [|a s1 IH]; [done |].
  rewrite str_app_cons. simpl. by rewrite IH, orb_assoc.
Qed.

Lemma join_cons2 (sep x y : string) (rest : list string) :
  join sep (x :: y :: rest) = x +:+ sep +:+ join sep (y :: rest).
Proof. reflexivity. Qed.

Lemma contains_join (c : ascii) (sep : string) (xs : list string) :
  contains c sep = false →
  Forall (λ x, contains c x = false) xs →
  contains c (join sep xs) = false.
Proof.
  intros Hsep Hxs. induction Hxs as [|x rest Hx Hrest IH]; [done |].
  destruct rest as [|y rest]; [done |].
  by rewrite join_cons2, !contains_app, Hx, Hsep, IH.
Qed.

Lemma split_on_not_nil (c : ascii) (s : string) : split_on c s ≠ [].
Proof.
  destruct s as [|a s]; simpl; [done |].
  destruct (Ascii.eqb a c); [done |].
  by destruct (split_on c s).
Qed.

(** Splitting distributes over a separator in the middle. *)
Lemma split_on_app (c : ascii) (s1 s2 : string) :
  split_on c (s1 +:+ String c s2) = split_on c s1 ++ split_on c s2.
Proof.
  induction s1 as [|a s1 IH].
  - rewrite str_app_nil_l. simpl. by rewrite Ascii.eqb_refl.
  - rewrite str_app_cons. simpl. rewrite IH.
    destruct (Ascii.eqb a c); [done |].
    pose proof (split_on_not_nil c s1) as Hne.
    by destruct (split_on c s1).
Qed.

Lemma split_on_free (c : ascii) (s : string) :
  contains c s = false → split_on c s = [s].
Proof.
  induction s as [|a s IH]; simpl; [done |].
  intros [Ha Hs]%orb_false_iff. by rewrite Ha, (IH Hs).
Qed.

Lemma split_on_cons (c : ascii) (s1 s2 : string) :
  contains c s1 = false →
  split_on c (s1 +:+ String c s2) = s1 :: split_on c s2.
Proof. intros H. by rewrite split_on_app, (split_on_free _ _ H). Qed.

(** Splitting undoes [join], except on the empty array. *)
Lemma split_on_join (c : ascii) (xs : list string) :
  xs ≠ [] →
  Forall (λ x, contains c x = false) xs →
  split_on c (join (String c "") xs) = xs.
Proof.
  intros Hne Hxs. induction Hxs as [|x rest Hx Hrest IH]; [done |].
  destruct rest as [|y rest]; [by apply split_on_free |].
  rewrite join_cons2, str_app_cons, str_app_nil_l.
  rewrite split_on_cons by done. f_equal. by apply IH.
Qed.

Lemma nonempty_app_sep (s1 s2 : string) (c : ascii) :
  nonempty (s1 +:+ String c s2) = true.
Proof. by destruct s1. Qed.

End StringFacts.

(** ** The members of [AwsResource] *)

Section Members.

Lemma style_addRef (o : AwsResource) (ref : string) :
  style (addRef o ref) = style o.
Proof. reflexivity. Qed.

Lemma name_addRef (o : AwsResource) (ref : string) :
  name (addRef o ref) = name o.
Proof. reflexivity. Qed.

Lemma style_foldl_addRef (targets : list string) (o : AwsResource) :
  style (foldl addRef o targets) = style o.
Proof.
  revert o. induction targets as [|t targets IH]; intros o; simpl; [done |].
  by rewrite IH, style_addRef.
Qed.

Lemma toCsvLine_instance (instanceId loadBalancerName : string) :
  toCsvLine (addRef (Ec2Instance instanceId) loadBalancerName)
  = instance_row instanceId loadBalancerName.
Proof. reflexivity. Qed.

Lemma toCsvLine_balancer (loadBalancerName : string) :
  toCsvLine (ApplicationLoadBalancer loadBalancerName)
  = balancer_row loadBalancerName.
Proof. reflexivity. Qed.

End Members.

(** C5: the row of a node is its name, fill, stroke and shape and the
    join of its references, five fields separated by four commas; the
    join puts a comma between two neighbouring references and nothing
    around them, and a node without references has the empty string as its
    last field, so that its row ends with the fourth comma. *)
Theorem toCsvLine_row_format (o : AwsResource) :
  toCsvLine o
  = name o +:+ "," +:+ fill o +:+ "," +:+ stroke o +:+ "," +:+ shape o
      +:+ "," +:+ join "," (refs o)
  ∧ join "," [] = ""
  ∧ (∀ x, join "," [x] = x)
  ∧ (∀ x y rest, join "," (x :: y :: rest) = x +:+ "," +:+ join "," (y :: rest))
  ∧ (∀ n f st sh,
       toCsvLine (new_AwsResource n f st sh)
       = n +:+ "," +:+ f +:+ "," +:+ st +:+ "," +:+ sh +:+ ",").
Proof. repeat split. Qed.

(** C6: the style of a node is decided by its kind alone: an instance
    has fill #ED7100, stroke #ffffff and shape mxgraph.aws4.ec2, a load
    balancer fill #8C4FFF, stroke #ffffff and shape
    mxgraph.aws4.application_load_balancer, whatever the name and whatever
    references are added afterwards. *)
Theorem style_by_kind (k : ResourceKind) (n : string) (targets : list string) :
  style (foldl addRef (construct k n) targets)
  = match k with
    | ComputeInstance => ("#ED7100", "#ffffff", "mxgraph.aws4.ec2")
    | LoadBalancer =>
        ("#8C4FFF", "#ffffff", "mxgraph.aws4.application_load_balancer")
    end.
Proof. rewrite style_foldl_addRef. by destruct k. Qed.

(** C2, as stated, fails: the constructor has no check, and a name with a
    comma gives a node like any other. *)
Lemma construct_comma_name_succeeds :
  valid_name "a,b" = false
  ∧ new_m ComputeInstance "a,b" empty_session
    = Normal (0, {| heap := [Ec2Instance "a,b"]; resources := [] |})
  ∧ new_m ComputeInstance "a,b" empty_session ≠ Throw InvalidNameError
  ∧ valid_name "" = false
  ∧ new_m LoadBalancer "" empty_session ≠ Throw InvalidNameError.
Proof. repeat split; done. Qed.

(** C2, amended: for every kind and every name, the empty one and those
    with a comma or a line break included, constructing a node succeeds;
    the node has that name, the style of its kind and no references. *)
Theorem construct_always_succeeds (k : ResourceKind) (n : string) (s : Session) :
  new_m k n s
  = Normal (length (heap s),
            {| heap := heap s ++ [construct k n]; resources := resources s |})
  ∧ (∀ e, new_m k n s ≠ Throw e)
  ∧ name (construct k n) = n
  ∧ style (construct k n) = kind_style k
  ∧ refs (construct k n) = [].
Proof.
  split; [done |]. split; [by intros e |].
  split; [by destruct k |]. split; by destruct k.
Qed.

(** C1, as stated, fails: with only the node i-1 constructed, adding a
    reference to a name that was never constructed ends normally and the
    name is recorded. *)
Lemma addRef_unknown_target_recorded :
  run [SNew ComputeInstance "i-1"] empty_session = Normal (tt, session_i1)
  ∧ in_names "ghost" (map name (heap session_i1)) = false
  ∧ addRef_m 0 "ghost" session_i1 = Normal (tt, session_i1_ghost)
  ∧ addRef_m 0 "ghost" session_i1 ≠ Throw UnknownTargetError
  ∧ refs <$> heap session_i1_ghost !! 0 = Some ["ghost"]
  ∧ in_names "ghost" (map name (heap session_i1_ghost)) = false.
Proof. repeat split; done. Qed.

(** C1, amended: on a constructed node [addRef] always succeeds and
    appends the target to the references of that node, whether or not the
    target is the name of a constructed node; nothing else in the store
    changes. *)
Theorem addRef_always_appends (s : Session) (h : nat) (o : AwsResource)
    (target : string) :
  heap s !! h = Some o →
  addRef_m h target s
  = Normal (tt, {| heap := <[h := addRef o target]> (heap s);
                   resources := resources s |})
  ∧ (∀ e, addRef_m h target s ≠ Throw e)
  ∧ refs (addRef o target) = refs o ++ [target]
  ∧ name (addRef o target) = name o
  ∧ style (addRef o target) = style o.
Proof.
  intros Hh.
  assert (addRef_m h target s
          = Normal (tt, {| heap := <[h := addRef o target]> (heap s);
                           resources := resources s |})) as Hrun.
  { unfold addRef_m, bind, deref. by rewrite Hh. }
  repeat split; try done. intros e. by rewrite Hrun.
Qed.

Lemma addRef_always_appends_witness :
  heap session_i1 !! 0 = Some (Ec2Instance "i-1")
  ∧ addRef_m 0 "alb-1" session_i1
    = Normal (tt, {| heap := [addRef (Ec2Instance "i-1") "alb-1"];
                     resources := [] |}).
Proof.
  split; [reflexivity |].
  exact (proj1 (addRef_always_appends session_i1 0 (Ec2Instance "i-1") "alb-1"
                  eq_refl)).
Defined.

(** C3: a load balancer alb-1 constructed first, an instance i-1 that
    references it constructed second, both pushed in that order: the
    rendered text has exactly the row of alb-1 followed by the row of i-1.
    The flat version of the stack gives the same text for these two
    identifiers. *)
Theorem scenario_A_rows :
  ∃ s csv,
    run scenario_A empty_session = Normal (tt, s)
    ∧ render s = Normal (csv, s)
    ∧ data_rows csv
      = [ "alb-1,#8C4FFF,#ffffff,mxgraph.aws4.application_load_balancer,";
          "i-1,#ED7100,#ffffff,mxgraph.aws4.ec2,alb-1" ]
    ∧ csv = template_head
              +:+ "alb-1,#8C4FFF,#ffffff,mxgraph.aws4.application_load_balancer,"
              +:+ nl +:+ "i-1,#ED7100,#ffffff,mxgraph.aws4.ec2,alb-1" +:+ nl
    ∧ csv = drawioCsv [ ApplicationLoadBalancer "alb-1";
                        addRef (Ec2Instance "i-1") "alb-1" ]
    ∧ csv = CdkStack_drawioCsv_flat "i-1" "alb-1".
Proof.
  exists session_A.
  exists (drawioCsv [ ApplicationLoadBalancer "alb-1";
                      addRef (Ec2Instance "i-1") "alb-1" ]).
  repeat split; vm_compute; reflexivity.
Qed.

(** ** The template literal *)

Section Template.

Lemma join_snoc (sep : string) (xs : list string) (x : string) :
  join sep (xs ++ [x])
  = match xs with
    | [] => x
    | _ => join sep xs +:+ sep +:+ x
    end.
Proof.
  induction xs as [|y xs IH]; [done |].
  destruct xs as [|z xs]; [done |].
  change ((y :: z :: xs) ++ [x]) with (y :: ((z :: xs) ++ [x])).
  change ((z :: xs) ++ [x]) with (z :: (xs ++ [x])) in *.
  rewrite join_cons2, IH, join_cons2. by rewrite !str_app_assoc.
Qed.

Lemma lines_snoc_nl (s : string) : lines (s +:+ nl) = lines s ++ [""].
Proof. unfold lines, nl. by rewrite split_on_app. Qed.

(** The text of the stack's run is what the program of its statements
    builds and renders on the store. *)
Lemma CdkStack_program_renders (instanceId loadBalancerName : string) :
  build_then_render (CdkStack_program instanceId loadBalancerName) empty_session
  = Normal (CdkStack_drawioCsv instanceId loadBalancerName,
            {| heap := [ addRef (Ec2Instance instanceId) loadBalancerName;
                         ApplicationLoadBalancer loadBalancerName ];
               resources := [0; 1] |}).
Proof. reflexivity. Qed.

End Template.

(** C10: in both versions the text starts with a line break, followed by
    the title line, and ends with a line break after the last row, so
    that its first and its last line are empty. *)
Theorem drawioCsv_framed_by_line_breaks :
  (∀ rs, ∃ rest,
     drawioCsv rs = nl +:+ "## Simple web server AWS diagram" +:+ nl +:+ rest)
  ∧ (∀ rs r, ∃ front, drawioCsv (rs ++ [r]) = front +:+ toCsvLine r +:+ nl)
  ∧ (∀ rs, head (lines (drawioCsv rs)) = Some ""
           ∧ last (lines (drawioCsv rs)) = Some "")
  ∧ (∀ i a, ∃ front,
       CdkStack_drawioCsv i a = front +:+ balancer_row a +:+ nl)
  ∧ (∀ i a, ∃ rest,
       CdkStack_drawioCsv_flat i a
       = nl +:+ "## Simple web server AWS diagram" +:+ nl +:+ rest)
  ∧ (∀ i a, ∃ front,
       CdkStack_drawioCsv_flat i a = front +:+ instance_row i a +:+ nl)
  ∧ (∀ i a, head (lines (CdkStack_drawioCsv_flat i a)) = Some ""
            ∧ last (lines (CdkStack_drawioCsv_flat i a)) = Some "").
Proof.
  assert (∀ rs r, ∃ front, drawioCsv (rs ++ [r]) = front +:+ toCsvLine r +:+ nl)
    as Hlast.
  { intros rs r. unfold drawioCsv. rewrite map_app. simpl (map toCsvLine [r]).
    rewrite join_snoc. destruct (map toCsvLine rs) as [|x xs].
    - by exists template_head.
    - exists (template_head +:+ join nl (x :: xs) +:+ nl).
      by rewrite !str_app_assoc. }
  split; [intros rs; eexists; reflexivity |].
  split; [done |].
  split.
  { intros rs. split; [reflexivity |].
    unfold drawioCsv. rewrite <- str_app_assoc, lines_snoc_nl. apply last_snoc. }
  split.
  { intros i a. unfold CdkStack_drawioCsv.
    destruct (Hlast [addRef (Ec2Instance i) (name (ApplicationLoadBalancer a))]
                    (ApplicationLoadBalancer a)) as [front Hfront].
    exists front. by rewrite <- toCsvLine_balancer. }
  split; [intros i a; eexists; reflexivity |].
  split.
  { intros i a. unfold CdkStack_drawioCsv_flat, instance_row.
    exists (template_head +:+ balancer_row a +:+ nl).
    unfold balancer_row. by rewrite !str_app_assoc. }
  intros i a. split; [reflexivity |].
  unfold CdkStack_drawioCsv_flat.
  change (last (lines (template_head +:+ a
            +:+ ",#8C4FFF,#ffffff,mxgraph.aws4.application_load_balancer,"
            +:+ nl +:+ i +:+ ",#ED7100,#ffffff,mxgraph.aws4.ec2," +:+ a +:+ nl))
          = Some "").
  rewrite <- !str_app_assoc, lines_snoc_nl. apply last_snoc.
Qed.

(** C9, as stated, fails: for the identifiers i-1 and alb-1 the two
    versions give different texts. *)
Lemma variants_differ_on_i1_alb1 :
  CdkStack_drawioCsv "i-1" "alb-1" ≠ CdkStack_drawioCsv_flat "i-1" "alb-1".
Proof. apply String.eqb_neq. vm_compute. reflexivity. Qed.

(** C9, amended: for the same two identifiers both versions emit the same
    fixed head and the same two rows; the class-based version puts the row
    of the instance first and the row of the load balancer second, the
    flat version the other way round: the flat text is what the class-based
    rendering gives for the two nodes in the opposite order. *)
Theorem variants_same_rows_opposite_order (instanceId loadBalancerName : string) :
  CdkStack_drawioCsv instanceId loadBalancerName
  = template_head
      +:+ instance_row instanceId loadBalancerName +:+ nl
      +:+ balancer_row loadBalancerName +:+ nl
  ∧ CdkStack_drawioCsv_flat instanceId loadBalancerName
    = template_head
        +:+ balancer_row loadBalancerName +:+ nl
        +:+ instance_row instanceId loadBalancerName +:+ nl
  ∧ CdkStack_drawioCsv instanceId loadBalancerName
    = drawioCsv [ addRef (Ec2Instance instanceId) loadBalancerName;
                  ApplicationLoadBalancer loadBalancerName ]
  ∧ CdkStack_drawioCsv_flat instanceId loadBalancerName
    = drawioCsv [ ApplicationLoadBalancer loadBalancerName;
                  addRef (Ec2Instance instanceId) loadBalancerName ].
Proof.
  assert (∀ x y, drawioCsv [x; y]
                 = template_head +:+ toCsvLine x +:+ nl +:+ toCsvLine y +:+ nl)
    as Hpair.
  { intros x y. unfold drawioCsv.
    change (map toCsvLine [x; y]) with [toCsvLine x; toCsvLine y].
    by rewrite join_cons2, !str_app_assoc. }
  assert (CdkStack_drawioCsv_flat instanceId loadBalancerName
          = template_head
              +:+ balancer_row loadBalancerName +:+ nl
              +:+ instance_row instanceId loadBalancerName +:+ nl) as Hflat.
  { unfold CdkStack_drawioCsv_flat, instance_row, balancer_row.
    by rewrite !str_app_assoc. }
  split; [|split; [|split]].
  - unfold CdkStack_drawioCsv. simpl ([] ++ _).
    by rewrite Hpair, toCsvLine_instance, toCsvLine_balancer.
  - exact Hflat.
  - reflexivity.
  - by rewrite Hflat, Hpair, toCsvLine_instance, toCsvLine_balancer.
Qed.

(** ** The store *)

Section Store.

Lemma deref_Some (s : Session) (h : nat) (o : AwsResource) :
  heap s !! h = Some o → deref h s = Normal (o, s).
Proof. intros H. unfold deref. by rewrite H. Qed.

Lemma deref_lt (s : Session) (h : nat) :
  h < length (heap s) → ∃ o, heap s !! h = Some o ∧ deref h s = Normal (o, s).
Proof.
  intros [o Ho]%lookup_lt_is_Some_2. exists o. split; [done |].
  by apply deref_Some.
Qed.

Lemma deref_Normal (s s' : Session) (h : nat) (o : AwsResource) :
  deref h s = Normal (o, s') → s' = s ∧ heap s !! h = Some o.
Proof.
  unfold deref. destruct (heap s !! h) as [o'|]; [|done].
  intros [= -> ->]. done.
Qed.

(** Looking up a list of variables reads the store and leaves it as it
    is. *)
Lemma mapM_deref_ok (s : Session) (hs : list nat) :
  Forall (λ h, h < length (heap s)) hs →
  mapM_st deref hs s = Normal (omap (λ h, heap s !! h) hs, s).
Proof.
  induction 1 as [|h hs Hh Hhs IH]; [done |].
  destruct (deref_lt s h Hh) as (o & Ho & Hd).
  simpl. unfold bind at 1. rewrite Hd. unfold bind at 1. rewrite IH.
  by rewrite Ho.
Qed.

Lemma mapM_deref_Normal (s s' : Session) (hs : list nat) (os : list AwsResource) :
  mapM_st deref hs s = Normal (os, s') →
  s' = s ∧ Forall (λ h, h < length (heap s)) hs.
Proof.
  revert os s'. induction hs as [|h hs IH]; intros os s'.
  - intros [= <- <-]. by split.
  - simpl. unfold bind at 1.
    destruct (deref h s) as [[o s1]|e] eqn:Hd; [|done].
    apply deref_Normal in Hd as [-> Ho].
    unfold bind at 1.
    destruct (mapM_st deref hs s) as [[os' s2]|e] eqn:Hm; [|done].
    destruct (IH _ _ eq_refl) as [-> Hall].
    intros [= <- <-]. split; [done |].
    constructor; [|done]. by eapply lookup_lt_Some.
Qed.

(** Rendering the rows reads the store and leaves it as it is. *)
Lemma mapM_toCsvLine_ok (s : Session) (hs : list nat) :
  Forall (λ h, h < length (heap s)) hs →
  mapM_st toCsvLine_m hs s
  = Normal (map toCsvLine (omap (λ h, heap s !! h) hs), s).
Proof.
  induction 1 as [|h hs Hh Hhs IH]; [done |].
  destruct (deref_lt s h Hh) as (o & Ho & Hd).
  simpl. unfold bind at 1. unfold toCsvLine_m at 1. unfold bind at 1.
  rewrite Hd. unfold ret at 1. unfold bind at 1. rewrite IH.
  by rewrite Ho.
Qed.

Lemma render_ok (s : Session) :
  handles_ok s → render s = Normal (drawioCsv (resource_objects s), s).
Proof.
  intros H. unfold render, bind, read_resources.
  by rewrite (mapM_toCsvLine_ok s _ H).
Qed.

Lemma exec_handles_ok (st : Stmt) (s s' : Session) :
  handles_ok s → exec st s = Normal (tt, s') → handles_ok s'.
Proof.
  unfold handles_ok. intros Hok. destruct st as [k n|h a|hs]; simpl.
  - intros [= <-]. simpl. rewrite length_app.
    eapply Forall_impl; [exact Hok |]. simpl. lia.
  - unfold bind at 1.
    destruct (deref h s) as [[o s1]|e] eqn:Hd; [|done].
    apply deref_Normal in Hd as [-> Ho].
    unfold bind at 1.
    assert (∃ t, eval_arg a s = Normal (t, s) ∨ ∃ e, eval_arg a s = Throw e)
      as [t [Ha|[e Ha]]].
    { destruct a as [t|h']; [exists t; by left |].
      simpl. unfold bind.
      destruct (deref h' s) as [[o' s1]|e] eqn:Hd'.
      - apply deref_Normal in Hd' as [-> _]. exists (name o'). by left.
      - exists "". right. by exists e. }
    + rewrite Ha. unfold addRef_m, bind. rewrite (deref_Some _ _ _ Ho).
      intros [= <-]. simpl. by rewrite length_insert.
    + by rewrite Ha.
  - unfold push_m, bind.
    destruct (mapM_st deref hs s) as [[os s1]|e] eqn:Hm; [|done].
    apply mapM_deref_Normal in Hm as [-> Hall].
    intros [= <-]. simpl. by apply Forall_app.
Qed.

(** Whatever the program, the array it leaves refers to objects only. *)
Lemma run_handles_ok (p : list Stmt) (s s' : Session) :
  handles_ok s → run p s = Normal (tt, s') → handles_ok s'.
Proof.
  revert s. induction p as [|st p IH]; intros s Hok; simpl.
  - by intros [= <-].
  - unfold bind.
    destruct (exec st s) as [[[] s1]|e] eqn:Hst; [|done].
    intros Hrun. eapply IH; [|exact Hrun]. by eapply exec_handles_ok.
Qed.

Lemma empty_handles_ok : handles_ok empty_session.
Proof. constructor. Qed.

End Store.

(** C8: building and rendering is a function of the program: a run that
    ends normally renders, the text is determined by the store the program
    left, any result a run produces is that one, and rendering leaves the
    store as it was, so that rendering a second time gives the same
    text. *)
Theorem build_then_render_deterministic (p : list Stmt) (s : Session) :
  run p empty_session = Normal (tt, s) →
  build_then_render p empty_session = Normal (drawioCsv (resource_objects s), s)
  ∧ (∀ out, build_then_render p empty_session = out →
            out = Normal (drawioCsv (resource_objects s), s))
  ∧ render s = Normal (drawioCsv (resource_objects s), s)
  ∧ (do! render in render) s = Normal (drawioCsv (resource_objects s), s).
Proof.
  intros Hrun. set (csv := drawioCsv (resource_objects s)).
  assert (render s = Normal (csv, s)) as Hrender.
  { apply render_ok. eapply run_handles_ok; [apply empty_handles_ok | done]. }
  assert (build_then_render p empty_session = Normal (csv, s)) as Hbuild.
  { unfold build_then_render, bind. by rewrite Hrun. }
  split; [done |]. split; [by intros out <- |]. split; [done |].
  unfold bind. by rewrite Hrender.
Qed.

Lemma build_then_render_deterministic_witness :
  run scenario_A empty_session = Normal (tt, session_A)
  ∧ build_then_render scenario_A empty_session
    = Normal (drawioCsv (resource_objects session_A), session_A)
  ∧ (do! render in render) session_A
    = Normal (drawioCsv (resource_objects session_A), session_A).
Proof.
  split; [reflexivity |].
  pose proof (build_then_render_deterministic scenario_A session_A eq_refl)
    as (Hbuild & _ & _ & Htwice).
  exact (conj Hbuild Htwice).
Defined.

(** ** Reading the rows back *)

Section Reading.

Lemma comma_app (x : string) : comma +:+ x = String comma_char x.
Proof. reflexivity. Qed.

Lemma valid_name_parts (n : string) :
  valid_name n = true →
  nonempty n = true
  ∧ contains comma_char n = false
  ∧ contains nl_char n = false.
Proof.
  unfold valid_name.
  intros [[H1 H2%negb_true_iff]%andb_true_iff H3%negb_true_iff]%andb_true_iff.
  done.
Qed.

Lemma field_ok_parts (x : string) :
  field_ok x = true →
  contains comma_char x = false ∧ contains nl_char x = false.
Proof.
  unfold field_ok.
  intros [H1%negb_true_iff H2%negb_true_iff]%andb_true_iff. done.
Qed.

Lemma filter_nonempty_id (xs : list string) :
  Forall (λ x, nonempty x = true) xs → List.filter nonempty xs = xs.
Proof.
  induction 1 as [|x xs Hx Hxs IH]; [done |]. simpl. by rewrite Hx, IH.
Qed.

Lemma filter_nonempty_snoc_blank (xs : list string) :
  Forall (λ x, nonempty x = true) xs →
  List.filter nonempty (xs ++ [""]) = xs.
Proof.
  induction 1 as [|x xs Hx Hxs IH]; [done |]. simpl. by rewrite Hx, IH.
Qed.

(** Below the column line of the template come the lines of what follows
    the template head. *)
Lemma after_column_line_template (rest : string) :
  after_column_line (lines (template_head +:+ rest)) = lines rest.
Proof.
  change (template_head +:+ rest)
    with ((nl +:+ join nl directive_lines +:+ nl +:+ column_line)
            +:+ String nl_char rest).
  unfold lines. rewrite split_on_app.
  change (split_on nl_char (nl +:+ join nl directive_lines +:+ nl +:+ column_line))
    with ("" :: directive_lines ++ [column_line]).
  reflexivity.
Qed.

Lemma toCsvLine_nonempty (o : AwsResource) : nonempty (toCsvLine o) = true.
Proof. unfold toCsvLine. rewrite comma_app. apply nonempty_app_sep. Qed.

(** The data rows of a rendered text are the rows of the nodes, when no
    row holds a line break. *)
Lemma data_rows_drawioCsv (rs : list AwsResource) :
  Forall (λ o, contains nl_char (toCsvLine o) = false) rs →
  data_rows (drawioCsv rs) = map toCsvLine rs.
Proof.
  intros Hrs. unfold data_rows, drawioCsv.
  rewrite after_column_line_template, lines_snoc_nl.
  destruct rs as [|r rs]; [done |].
  unfold lines, nl. rewrite split_on_join.
  - apply filter_nonempty_snoc_blank.
    apply Forall_forall. intros row [o [<- _]]%list_elem_of_In%in_map_iff.
    apply toCsvLine_nonempty.
  - done.
  - apply Forall_forall. intros row [o [<- Ho]]%list_elem_of_In%in_map_iff.
    apply list_elem_of_In in Ho.
    by apply (proj1 (Forall_forall _ _) Hrs).
Qed.

Lemma split_toCsvLine (o : AwsResource) :
  contains comma_char (name o) = false →
  contains comma_char (fill o) = false →
  contains comma_char (stroke o) = false →
  contains comma_char (shape o) = false →
  split_on comma_char (toCsvLine o)
  = name o :: fill o :: stroke o :: shape o
      :: split_on comma_char (join comma (refs o)).
Proof.
  intros Hn Hf Hst Hsh. unfold toCsvLine. rewrite !comma_app.
  by rewrite !split_on_cons.
Qed.

Lemma node_ok_row (o : AwsResource) :
  node_ok o →
  contains nl_char (toCsvLine o) = false
  ∧ component_of (toCsvLine o) = name o
  ∧ refs_of (toCsvLine o) = refs o.
Proof.
  intros (Hn & Hf & Hst & Hsh & Hrefs).
  apply valid_name_parts in Hn as (_ & Hnc & Hnn).
  apply field_ok_parts in Hf as [Hfc Hfn].
  apply field_ok_parts in Hst as [Hstc Hstn].
  apply field_ok_parts in Hsh as [Hshc Hshn].
  assert (Forall (λ r, contains comma_char r = false) (refs o)) as Hrc.
  { eapply Forall_impl; [exact Hrefs |]. intros r Hr.
    by apply valid_name_parts in Hr as (_ & ? & _). }
  assert (Forall (λ r, contains nl_char r = false) (refs o)) as Hrn.
  { eapply Forall_impl; [exact Hrefs |]. intros r Hr.
    by apply valid_name_parts in Hr as (_ & _ & ?). }
  assert (Forall (λ r, nonempty r = true) (refs o)) as Hre.
  { eapply Forall_impl; [exact Hrefs |]. intros r Hr.
    by apply valid_name_parts in Hr as (? & _ & _). }
  split; [|split].
  - unfold toCsvLine. rewrite !contains_app, Hnn, Hfn, Hstn, Hshn.
    by rewrite contains_join.
  - unfold component_of. by rewrite split_toCsvLine.
  - unfold refs_of. rewrite split_toCsvLine by done.
    change (drop 4 (name o :: fill o :: stroke o :: shape o
                      :: split_on comma_char (join comma (refs o))))
      with (split_on comma_char (join comma (refs o))).
    destruct (refs o) as [|r rest] eqn:Hrs; [done |].
    unfold comma. rewrite split_on_join by done.
    by apply filter_nonempty_id.
Qed.

(** Both columns of a rendered text, for nodes whose rows read back. *)
Lemma columns_drawioCsv (rs : list AwsResource) :
  Forall node_ok rs →
  component_column (drawioCsv rs) = map name rs
  ∧ refs_column (drawioCsv rs) = concat (map refs rs).
Proof.
  intros Hrs. unfold component_column, refs_column.
  rewrite data_rows_drawioCsv.
  2:{ eapply Forall_impl; [exact Hrs |]. intros o Ho.
      by apply node_ok_row in Ho as (? & _ & _). }
  rewrite !List.map_map. split.
  - apply List.map_ext_in. intros o Ho%list_elem_of_In.
    by apply node_ok_row, (proj1 (Forall_forall _ _) Hrs).
  - f_equal. apply List.map_ext_in. intros o Ho%list_elem_of_In.
    by apply node_ok_row, (proj1 (Forall_forall _ _) Hrs).
Qed.

End Reading.

(** C4: the rendered text is the line break that opens the literal, the
    directive lines (each starting with #), the column line
    component,fill,stroke,shape,refs, then the rows joined by line breaks
    and a final line break; the rows are the rows of the nodes, one for
    each node, at the position of the node, and when no row holds a line
    break they are exactly the lines of the text below the column line:
    nothing is reordered, dropped or merged. *)
Theorem drawioCsv_structure (rs : list AwsResource) :
  drawioCsv rs
  = nl +:+ join nl directive_lines +:+ nl +:+ column_line +:+ nl
      +:+ join nl (map toCsvLine rs) +:+ nl
  ∧ Forall (λ l, ∃ rest, l = String "#" rest) directive_lines
  ∧ column_line = "component,fill,stroke,shape,refs"
  ∧ lines template_head = "" :: directive_lines ++ [column_line; ""]
  ∧ length (map toCsvLine rs) = length rs
  ∧ (∀ i, map toCsvLine rs !! i = toCsvLine <$> rs !! i)
  ∧ (Forall (λ o, contains nl_char (toCsvLine o) = false) rs →
     data_rows (drawioCsv rs) = map toCsvLine rs).
Proof.
  split; [reflexivity |].
  split; [repeat constructor; eexists; reflexivity |].
  split; [reflexivity |].
  split; [vm_compute; reflexivity |].
  split; [apply length_map |].
  split; [intros i; apply list_lookup_fmap |].
  apply data_rows_drawioCsv.
Qed.

(** Two nodes with the same name and style give two equal rows. *)
Lemma drawioCsv_structure_witness :
  Forall (λ o, contains nl_char (toCsvLine o) = false)
    [Ec2Instance "i-1"; Ec2Instance "i-1"]
  ∧ data_rows (drawioCsv [Ec2Instance "i-1"; Ec2Instance "i-1"])
    = [ "i-1,#ED7100,#ffffff,mxgraph.aws4.ec2,";
        "i-1,#ED7100,#ffffff,mxgraph.aws4.ec2," ].
Proof.
  assert (Forall (λ o, contains nl_char (toCsvLine o) = false)
            [Ec2Instance "i-1"; Ec2Instance "i-1"]) as Hrows.
  { repeat constructor. }
  split; [exact Hrows |].
  destruct (drawioCsv_structure [Ec2Instance "i-1"; Ec2Instance "i-1"])
    as (_ & _ & _ & _ & _ & _ & Hdata).
  exact (Hdata Hrows).
Defined.

(** ** Valid programs *)

Section ValidPrograms.

Lemma construct_node_ok (k : ResourceKind) (n : string) :
  valid_name n = true → node_ok (construct k n).
Proof. intros Hn. destruct k; repeat split; done. Qed.

Lemma addRef_node_ok (o : AwsResource) (t : string) :
  node_ok o → valid_name t = true → node_ok (addRef o t).
Proof.
  intros (Hn & Hf & Hst & Hsh & Hrefs) Ht. repeat split; try done.
  simpl. apply Forall_app. split; [done |]. by constructor.
Qed.

Lemma in_names_elem (n : string) (ns : list string) :
  in_names n ns = true → n ∈ ns.
Proof.
  unfold in_names. intros (m & Hm & Heq)%existsb_exists.
  apply String.eqb_eq in Heq as ->. by apply list_elem_of_In.
Qed.

Lemma session_ok_length (issued : list string) (pushed : list nat) (s : Session) :
  session_ok issued pushed s → length (heap s) = length issued.
Proof. intros (<- & _). by rewrite length_map. Qed.

Lemma session_ok_issued_valid (issued : list string) (pushed : list nat)
    (s : Session) (n : string) :
  session_ok issued pushed s → n ∈ issued → valid_name n = true.
Proof.
  intros (<- & Hnodes & _) [o [<- Ho]]%list_elem_of_In%in_map_iff.
  apply list_elem_of_In in Ho.
  by apply (proj1 (Forall_forall _ _) Hnodes o Ho).
Qed.

Lemma session_ok_handles (issued : list string) (pushed : list nat) (s : Session) :
  session_ok issued pushed s → handles_ok s.
Proof.
  intros Hok. pose proof (session_ok_length _ _ _ Hok) as Hlen.
  destruct Hok as (_ & _ & _ & Hres & Hp). unfold handles_ok.
  by rewrite Hres, Hlen.
Qed.

(** The argument of a valid [addRef] evaluates to an issued name. *)
Lemma eval_arg_valid (issued : list string) (pushed : list nat) (s : Session)
    (a : Arg) :
  session_ok issued pushed s →
  valid_arg issued a = true →
  ∃ t, eval_arg a s = Normal (t, s) ∧ t ∈ issued.
Proof.
  intros Hok Ha. destruct a as [t|h]; simpl in *.
  - exists t. split; [done |]. by apply in_names_elem.
  - apply bool_decide_eq_true in Ha.
    rewrite <- (session_ok_length _ _ _ Hok) in Ha.
    destruct (deref_lt s h Ha) as (o & Ho & Hd).
    exists (name o). unfold bind. rewrite Hd. split; [done |].
    destruct Hok as (<- & _). apply list_elem_of_In, in_map.
    by apply list_elem_of_In, list_elem_of_lookup_2 with h.
Qed.

Lemma session_ok_new (issued : list string) (pushed : list nat) (s : Session)
    (k : ResourceKind) (n : string) :
  session_ok issued pushed s →
  valid_name n = true →
  session_ok (issued ++ [n]) pushed
    {| heap := heap s ++ [construct k n]; resources := resources s |}.
Proof.
  intros (Hnames & Hnodes & Hrefs & Hres & Hp) Hn. repeat split; simpl.
  - rewrite List.map_app, Hnames. by destruct k.
  - apply Forall_app. split; [done |].
    constructor; [by apply construct_node_ok | done].
  - apply Forall_app. split.
    + eapply Forall_impl; [exact Hrefs |]. intros o Ho.
      eapply Forall_impl; [exact Ho |]. intros r Hr. simpl.
      apply elem_of_app. by left.
    + constructor; [|done]. by destruct k.
  - done.
  - eapply Forall_impl; [exact Hp |]. intros h Hh. simpl in *.
    rewrite length_app. simpl. lia.
Qed.

Lemma session_ok_addRef (issued : list string) (pushed : list nat) (s : Session)
    (h : nat) (o : AwsResource) (t : string) :
  session_ok issued pushed s →
  heap s !! h = Some o →
  t ∈ issued →
  session_ok issued pushed
    {| heap := <[h := addRef o t]> (heap s); resources := resources s |}.
Proof.
  intros Hok Ho Ht.
  pose proof (session_ok_issued_valid _ _ _ _ Hok Ht) as Hvalid.
  destruct Hok as (Hnames & Hnodes & Hrefs & Hres & Hp).
  repeat split; simpl; try done.
  - change (map name (<[h := addRef o t]> (heap s)))
      with (name <$> <[h := addRef o t]> (heap s)).
    rewrite list_fmap_insert, name_addRef, list_insert_id; [done |].
    by rewrite list_lookup_fmap, Ho.
  - apply Forall_insert; [done |].
    apply addRef_node_ok; [|done].
    by apply (proj1 (Forall_forall _ _) Hnodes), list_elem_of_lookup_2 with h.
  - apply Forall_insert; [done |]. simpl. apply Forall_app. split.
    + by apply (proj1 (Forall_forall _ _) Hrefs), list_elem_of_lookup_2 with h.
    + by constructor.
Qed.

(** A valid program runs to its end, and leaves a store in which every
    issued name is the name of a pushed node. *)
Lemma run_valid (p : list Stmt) :
  ∀ issued pushed s,
    session_ok issued pushed s →
    valid_program issued pushed p = true →
    ∃ s' pushed',
      run p s = Normal (tt, s')
      ∧ session_ok (issued ++ names_passed p) pushed' s'
      ∧ ∀ h, h < length (issued ++ names_passed p) → h ∈ pushed'.
Proof.
  induction p as [|st p IH]; intros issued pushed s Hok Hvalid.
  - exists s, pushed. simpl in *. rewrite app_nil_r.
    split; [done |]. split; [done |]. intros h Hh.
    pose proof (proj1 (forallb_forall _ _) Hvalid h) as Hin.
    apply (bool_decide_eq_true_1 (h ∈ pushed)), Hin, in_seq. lia.
  - destruct st as [k n|h a|hs]; simpl in Hvalid.
    + apply andb_true_iff in Hvalid as [Hn Hrest].
      destruct (IH _ _ _ (session_ok_new _ _ _ k n Hok Hn) Hrest)
        as (s' & pushed' & Hrun & Hok' & Hall).
      exists s', pushed'. simpl. rewrite <- app_assoc in Hok', Hall.
      split; [|done]. unfold bind. simpl. exact Hrun.
    + apply andb_true_iff in Hvalid as [[Hh Ha]%andb_true_iff Hrest].
      apply bool_decide_eq_true in Hh.
      rewrite <- (session_ok_length _ _ _ Hok) in Hh.
      destruct (deref_lt s h Hh) as (o & Ho & Hd).
      destruct (eval_arg_valid _ _ _ _ Hok Ha) as (t & Harg & Ht).
      destruct (IH _ _ _ (session_ok_addRef _ _ _ h o t Hok Ho Ht) Hrest)
        as (s' & pushed' & Hrun & Hok' & Hall).
      exists s', pushed'. split; [|done].
      simpl. unfold bind at 1. unfold bind at 1. rewrite Hd.
      unfold bind at 1. rewrite Harg.
      unfold addRef_m, bind at 1. rewrite Hd. exact Hrun.
    + apply andb_true_iff in Hvalid as [Hhs Hrest].
      assert (Forall (λ h, h < length issued) hs) as Hlt.
      { apply Forall_forall. intros h Hin%list_elem_of_In.
        by apply (bool_decide_eq_true_1 (h < length issued)),
             (proj1 (forallb_forall _ _) Hhs). }
      assert (session_ok issued (pushed ++ hs)
                {| heap := heap s; resources := resources s ++ hs |}) as Hok1.
      { destruct Hok as (Hnames & Hnodes & Hrefs & Hres & Hp).
        repeat split; simpl; try done.
        - by rewrite Hres.
        - by apply Forall_app. }
      destruct (IH _ _ _ Hok1 Hrest) as (s' & pushed' & Hrun & Hok' & Hall).
      exists s', pushed'. split; [|done].
      simpl. unfold bind at 1. unfold push_m, bind at 1.
      rewrite mapM_deref_ok; [exact Hrun |].
      by rewrite (session_ok_length _ _ _ Hok).
Qed.

Lemma empty_session_ok : session_ok [] [] empty_session.
Proof. repeat split; constructor. Qed.

Lemma resource_objects_in_heap (s : Session) (o : AwsResource) :
  o ∈ resource_objects s → o ∈ heap s.
Proof.
  intros (h & _ & Hh)%list_elem_of_omap. by eapply list_elem_of_lookup_2.
Qed.

End ValidPrograms.

(** C7: for a valid program (valid names, every [addRef] naming a node
    constructed before it, every constructed node pushed) the run renders,
    the names in the component column of the text are exactly the names
    passed to the constructors, and every name in a refs column is in the
    component column. *)
Theorem roundtrip_names (p : list Stmt) :
  valid_program [] [] p = true →
  ∃ s csv,
    build_then_render p empty_session = Normal (csv, s)
    ∧ list_to_set (component_column csv) =@{gset string}
        list_to_set (names_passed p)
    ∧ list_to_set (refs_column csv) ⊆@{gset string}
        list_to_set (component_column csv).
Proof.
  intros Hvalid.
  destruct (run_valid p [] [] empty_session empty_session_ok Hvalid)
    as (s & pushed & Hrun & Hok & Hall).
  simpl in Hok, Hall.
  pose proof (session_ok_handles _ _ _ Hok) as Hhandles.
  pose proof (session_ok_length _ _ _ Hok) as Hlen.
  destruct Hok as (Hnames & Hnodes & Hrefs & Hres & Hp).
  exists s, (drawioCsv (resource_objects s)).
  assert (Forall node_ok (resource_objects s)) as Hobjs.
  { apply Forall_forall. intros o Ho%resource_objects_in_heap.
    by apply (proj1 (Forall_forall _ _) Hnodes). }
  destruct (columns_drawioCsv _ Hobjs) as [-> ->].
  assert (∀ x, x ∈ names_passed p → x ∈ map name (resource_objects s)) as Hback.
  { intros x Hx. rewrite <- Hnames in Hx.
    apply list_elem_of_In, in_map_iff in Hx as (o & <- & Ho).
    apply list_elem_of_In, list_elem_of_lookup in Ho as [h Hh].
    apply list_elem_of_In, in_map, list_elem_of_In.
    apply list_elem_of_omap. exists h. split; [|done].
    rewrite Hres. apply Hall. rewrite <- Hlen. by eapply lookup_lt_Some. }
  split; [|split].
  - unfold build_then_render, bind. rewrite Hrun. by apply render_ok.
  - apply set_eq. intros x. rewrite !elem_of_list_to_set. split; [|apply Hback].
    intros (o & <- & Ho)%list_elem_of_In%in_map_iff.
    rewrite <- Hnames. apply list_elem_of_In, in_map, list_elem_of_In.
    by apply resource_objects_in_heap, list_elem_of_In.
  - intros x. rewrite !elem_of_list_to_set.
    intros (rs & Hrs & Hx)%list_elem_of_In%in_concat.
    apply in_map_iff in Hrs as (o & <- & Ho).
    apply Hback.
    apply list_elem_of_In, resource_objects_in_heap in Ho.
    apply (proj1 (Forall_forall _ _) (proj1 (Forall_forall _ _) Hrefs o Ho)).
    by apply list_elem_of_In.
Qed.

Lemma roundtrip_names_witness :
  ∃ s csv,
    build_then_render (CdkStack_program "i-1" "alb-1") empty_session
    = Normal (csv, s)
    ∧ list_to_set (component_column csv) =@{gset string}
        list_to_set (names_passed (CdkStack_program "i-1" "alb-1"))
    ∧ list_to_set (refs_column csv) ⊆@{gset string}
        list_to_set (component_column csv).
Proof.
  apply (roundtrip_names (CdkStack_program "i-1" "alb-1")).
  vm_compute. reflexivity.
Defined.

(** Without the validity of the program the round trip is lost: a
    reference to a name that no node has is rendered like any other. *)
Example dangling_reference_is_rendered :
  valid_program [] []
    [SNew ComputeInstance "i-1"; SAddRef 0 (Lit "ghost"); SPush [0]] = false
  ∧ ∃ s csv,
      build_then_render
        [SNew ComputeInstance "i-1"; SAddRef 0 (Lit "ghost"); SPush [0]]
        empty_session = Normal (csv, s)
      ∧ component_column csv = ["i-1"]
      ∧ refs_column csv = ["ghost"].
Proof.
  split; [reflexivity |].
  exists {| heap := [addRef (Ec2Instance "i-1") "ghost"]; resources := [0] |}.
  exists (drawioCsv [addRef (Ec2Instance "i-1") "ghost"]).
  repeat split; vm_compute; reflexivity.
Qed.

(** * Further properties of the diagram code *)

(** ** Rows and references *)

Section Rows.

Lemma refs_foldl_addRef (ts : list string) (o : AwsResource) :
  refs (foldl addRef o ts) = refs o ++ ts.
Proof.
  revert o. induction ts as [|t ts IH]; intros o; simpl.
  - by rewrite app_nil_r.
  - rewrite IH. simpl. by rewrite <- app_assoc.
Qed.

Lemma name_foldl_addRef (ts : list string) (o : AwsResource) :
  name (foldl addRef o ts) = name o.
Proof.
  revert o. induction ts as [|t ts IH]; intros o; simpl; [done |].
  by rewrite IH.
Qed.

Lemma hd_split_on_app (c : ascii) (s1 s2 : string) :
  hd "" (split_on c (s1 +:+ String c s2)) = hd "" (split_on c s1).
Proof.
  rewrite split_on_app. pose proof (split_on_not_nil c s1).
  by destruct (split_on c s1).
Qed.

Lemma hd_split_on_id (c : ascii) (s : string) :
  hd "" (split_on c s) = s → contains c s = false.
Proof.
  induction s as [|a s IH]; simpl; [done |].
  destruct (Ascii.eqb a c) eqn:Hac; [done |].
  pose proof (split_on_not_nil c s) as Hne.
  destruct (split_on c s) as [|piece pieces] eqn:Hs; [done |].
  simpl. intros [= Hpiece]. by apply IH.
Qed.

Lemma length_split_on_join (c : ascii) (xs : list string) :
  Forall (λ x, contains c x = false) xs →
  length (split_on c (join (String c "") xs)) = Nat.max 1 (length xs).
Proof.
  intros Hxs. destruct xs as [|x xs]; [done |].
  rewrite split_on_join by done. simpl. lia.
Qed.

(** The fields of the row of a node without delimiters are the fields of
    the node. *)
Lemma node_ok_fields (o : AwsResource) :
  node_ok o →
  split_on comma_char (toCsvLine o)
  = name o :: fill o :: stroke o :: shape o
      :: split_on comma_char (join comma (refs o)).
Proof.
  intros (Hn & Hf & Hst & Hsh & _).
  apply valid_name_parts in Hn as (_ & Hn & _).
  apply field_ok_parts in Hf as [Hf _].
  apply field_ok_parts in Hst as [Hst _].
  apply field_ok_parts in Hsh as [Hsh _].
  by apply split_toCsvLine.
Qed.

Lemma toCsvLine_inj (o1 o2 : AwsResource) :
  node_ok o1 → node_ok o2 → toCsvLine o1 = toCsvLine o2 → o1 = o2.
Proof.
  intros H1 H2 Heq.
  pose proof (node_ok_fields o1 H1) as Hf1.
  pose proof (node_ok_fields o2 H2) as Hf2.
  destruct (node_ok_row o1 H1) as (_ & _ & Hr1).
  destruct (node_ok_row o2 H2) as (_ & _ & Hr2).
  rewrite Heq in Hf1, Hr1. rewrite Hf1 in Hf2. rewrite Hr1 in Hr2.
  injection Hf2 as Hname Hfill Hstroke Hshape _.
  destruct o1, o2. simpl in *. congruence.
Qed.

End Rows.

(** X1: adding a reference extends the row of the node at its end: the
    new row is the old row followed by the target, with a comma in between
    unless the node had no reference before. *)
Theorem toCsvLine_addRef (o : AwsResource) (t : string) :
  toCsvLine (addRef o t)
  = match refs o with
    | [] => toCsvLine o +:+ t
    | _ :: _ => toCsvLine o +:+ "," +:+ t
    end.
Proof.
  unfold toCsvLine. simpl (refs (addRef o t)). simpl (name (addRef o t)).
  simpl (fill (addRef o t)). simpl (stroke (addRef o t)).
  simpl (shape (addRef o t)). rewrite join_snoc.
  destruct (refs o) as [|r rest].
  - by rewrite !str_app_assoc.
  - by rewrite !str_app_assoc.
Qed.

(** X2: the references of a node are the targets of the [addRef] calls in
    call order, repeated targets kept, and its row lists them in that
    order after the name and the style of the node. *)
Theorem addRef_calls_accumulate (o : AwsResource) (ts : list string) :
  refs (foldl addRef o ts) = refs o ++ ts
  ∧ toCsvLine (foldl addRef o ts)
    = name o +:+ "," +:+ fill o +:+ "," +:+ stroke o +:+ "," +:+ shape o
        +:+ "," +:+ join "," (refs o ++ ts).
Proof.
  split; [apply refs_foldl_addRef |].
  pose proof (style_foldl_addRef ts o) as Hstyle.
  unfold style in Hstyle. injection Hstyle as Hfill Hstroke Hshape.
  unfold toCsvLine.
  by rewrite refs_foldl_addRef, name_foldl_addRef, Hfill, Hstroke, Hshape.
Qed.

(** X3: the first field of the row of a node is its name exactly when the
    name holds no comma: nothing in the row is quoted or escaped. *)
Theorem component_read_back_iff (o : AwsResource) :
  component_of (toCsvLine o) = name o ↔ contains comma_char (name o) = false.
Proof.
  unfold component_of, toCsvLine. rewrite comma_app, hd_split_on_app. split.
  - apply hd_split_on_id.
  - intros H. by rewrite split_on_free.
Qed.

(** X4: the row of a node without commas in its fields has four fields
    and one more for each reference, five at least; it has the five
    columns of the column line exactly when the node has at most one
    reference. *)
Theorem row_field_count (o : AwsResource) :
  comma_free o →
  length (split_on comma_char (toCsvLine o)) = 4 + Nat.max 1 (length (refs o))
  ∧ (length (split_on comma_char (toCsvLine o))
     = length (split_on comma_char column_line)
     ↔ length (refs o) ≤ 1).
Proof.
  intros (Hn & Hf & Hst & Hsh & Hrefs).
  assert (length (split_on comma_char (toCsvLine o))
          = 4 + Nat.max 1 (length (refs o))) as Hlen.
  { rewrite split_toCsvLine by done. unfold comma. simpl length.
    by rewrite length_split_on_join. }
  split; [done |]. rewrite Hlen.
  change (length (split_on comma_char column_line)) with 5. lia.
Qed.

Lemma row_field_count_witness :
  comma_free (addRef (addRef (Ec2Instance "i-1") "alb-1") "alb-2")
  ∧ length (split_on comma_char
              (toCsvLine (addRef (addRef (Ec2Instance "i-1") "alb-1") "alb-2")))
    = 6.
Proof.
  assert (comma_free (addRef (addRef (Ec2Instance "i-1") "alb-1") "alb-2"))
    as Hfree.
  { repeat split; repeat constructor. }
  split; [exact Hfree |].
  exact (proj1 (row_field_count _ Hfree)).
Defined.

(** X5: two different nodes with valid names, style fields without
    delimiters and valid names as references have different rows. *)
Theorem distinct_nodes_distinct_rows (o1 o2 : AwsResource) :
  node_ok o1 → node_ok o2 → o1 ≠ o2 → toCsvLine o1 ≠ toCsvLine o2.
Proof. intros H1 H2 Hne Heq. apply Hne. by apply toCsvLine_inj. Qed.

Lemma distinct_nodes_distinct_rows_witness :
  toCsvLine (Ec2Instance "web") ≠ toCsvLine (ApplicationLoadBalancer "web").
Proof.
  apply distinct_nodes_distinct_rows.
  - repeat split; constructor.
  - repeat split; constructor.
  - discriminate.
Defined.

(** Without the condition on the names the rows can coincide: two
    references and one reference with a comma in it give the same row. *)
Example rows_coincide_with_comma :
  addRef (addRef (Ec2Instance "x") "a") "b" ≠ addRef (Ec2Instance "x") "a,b"
  ∧ toCsvLine (addRef (addRef (Ec2Instance "x") "a") "b")
    = toCsvLine (addRef (Ec2Instance "x") "a,b").
Proof. split; [discriminate | reflexivity]. Qed.

(** ** Programs on the store *)

Section Programs.

Lemma run_cons (st : Stmt) (p : list Stmt) (s : Session) :
  run (st :: p) s
  = match exec st s with
    | Normal (_, s1) => run p s1
    | Throw e => Throw e
    end.
Proof. reflexivity. Qed.

Lemma run_app (p q : list Stmt) (s : Session) :
  run (p ++ q) s
  = match run p s with
    | Normal (_, s1) => run q s1
    | Throw e => Throw e
    end.
Proof.
  revert s. induction p as [|st p IH]; intros s; [done |].
  change ((st :: p) ++ q) with (st :: (p ++ q)). rewrite !run_cons.
  destruct (exec st s) as [[[] s1]|e]; [apply IH | done].
Qed.

Lemma eval_arg_Normal (a : Arg) (s s1 : Session) (t : string) :
  eval_arg a s = Normal (t, s1) → s1 = s.
Proof.
  destruct a as [lit|h]; simpl.
  - by intros [= _ <-].
  - unfold bind. destruct (deref h s) as [[o s2]|e] eqn:Hd; [|done].
    apply deref_Normal in Hd as [-> _]. by intros [= _ <-].
Qed.

(** What a statement that ends normally has done. *)
Lemma exec_Normal (st : Stmt) (s s' : Session) :
  exec st s = Normal (tt, s') →
  match st with
  | SNew k n =>
      s' = {| heap := heap s ++ [construct k n]; resources := resources s |}
  | SAddRef h a =>
      ∃ o t, heap s !! h = Some o
             ∧ eval_arg a s = Normal (t, s)
             ∧ s' = {| heap := <[h := addRef o t]> (heap s);
                       resources := resources s |}
  | SPush hs =>
      Forall (λ h, h < length (heap s)) hs
      ∧ s' = {| heap := heap s; resources := resources s ++ hs |}
  end.
Proof.
  destruct st as [k n|h a|hs]; simpl.
  - by intros [= <-].
  - unfold bind at 1.
    destruct (deref h s) as [[o s1]|e] eqn:Hd; [|done].
    apply deref_Normal in Hd as [-> Ho].
    unfold bind at 1.
    destruct (eval_arg a s) as [[t s1]|e] eqn:Ha; [|done].
    pose proof (eval_arg_Normal _ _ _ _ Ha) as ->.
    unfold addRef_m, bind. rewrite (deref_Some _ _ _ Ho).
    intros [= <-]. by exists o, t.
  - unfold push_m, bind.
    destruct (mapM_st deref hs s) as [[os s1]|e] eqn:Hm; [|done].
    apply mapM_deref_Normal in Hm as [-> Hall].
    by intros [= <-].
Qed.

Lemma push_stmt_ok (s : Session) (hs : list nat) :
  Forall (λ h, h < length (heap s)) hs →
  exec (SPush hs) s
  = Normal (tt, {| heap := heap s; resources := resources s ++ hs |}).
Proof.
  intros H. simpl. unfold push_m, bind. by rewrite mapM_deref_ok.
Qed.

Lemma addRef_stmt_ok (s : Session) (h : nat) (o : AwsResource) (t : string) :
  heap s !! h = Some o →
  exec (SAddRef h (Lit t)) s
  = Normal (tt, {| heap := <[h := addRef o t]> (heap s);
                   resources := resources s |}).
Proof.
  intros Ho. simpl. unfold bind at 1. rewrite (deref_Some _ _ _ Ho).
  unfold bind at 1. simpl. unfold addRef_m, bind.
  by rewrite (deref_Some _ _ _ Ho).
Qed.

Lemma names_insert_addRef (l : list AwsResource) (h : nat) (o : AwsResource)
    (t : string) :
  l !! h = Some o → map name (<[h := addRef o t]> l) = map name l.
Proof.
  intros Ho.
  change (name <$> <[h := addRef o t]> l = name <$> l).
  rewrite list_fmap_insert, name_addRef, list_insert_id; [done |].
  by rewrite list_lookup_fmap, Ho.
Qed.

Lemma node_grows_refl (o : AwsResource) : node_grows o o.
Proof. by repeat split. Qed.

Lemma node_grows_trans (o1 o2 o3 : AwsResource) :
  node_grows o1 o2 → node_grows o2 o3 → node_grows o1 o3.
Proof.
  intros (Hn1 & Hs1 & Hr1) (Hn2 & Hs2 & Hr2). repeat split.
  - by rewrite Hn2.
  - by rewrite Hs2.
  - by etrans.
Qed.

Lemma node_grows_addRef (o : AwsResource) (t : string) :
  node_grows o (addRef o t).
Proof. repeat split. by exists [t]. Qed.

Lemma session_grows_refl (s : Session) : session_grows s s.
Proof.
  split; [|done]. intros h o Ho. exists o. split; [done |].
  apply node_grows_refl.
Qed.

Lemma session_grows_trans (s1 s2 s3 : Session) :
  session_grows s1 s2 → session_grows s2 s3 → session_grows s1 s3.
Proof.
  intros [Hh1 Hr1] [Hh2 Hr2]. split; [|by etrans].
  intros h o Ho. destruct (Hh1 h o Ho) as (o2 & Ho2 & Hg2).
  destruct (Hh2 h o2 Ho2) as (o3 & Ho3 & Hg3). exists o3.
  split; [done |]. by eapply node_grows_trans.
Qed.

Lemma exec_grows (st : Stmt) (s s' : Session) :
  exec st s = Normal (tt, s') →
  session_grows s s'
  ∧ map name (heap s') = map name (heap s) ++ names_passed [st].
Proof.
  intros Hst%exec_Normal. destruct st as [k n|h a|hs].
  - subst s'. simpl. split; [split |].
    + intros h o Ho. exists o. split; [|apply node_grows_refl].
      by apply lookup_app_l_Some.
    + done.
    + rewrite List.map_app. by destruct k.
  - destruct Hst as (o & t & Ho & _ & ->). simpl. split; [split |].
    + intros h' o' Ho'. destruct (decide (h' = h)) as [->|Hne].
      * exists (addRef o t). split.
        -- apply list_lookup_insert_eq. by eapply lookup_lt_Some.
        -- rewrite Ho in Ho'. injection Ho' as <-. apply node_grows_addRef.
      * exists o'. split; [|apply node_grows_refl].
        simpl. by rewrite list_lookup_insert_ne.
    + done.
    + by rewrite app_nil_r, names_insert_addRef.
  - destruct Hst as [_ ->]. simpl. split; [split |].
    + intros h o Ho. exists o. split; [done | apply node_grows_refl].
    + by apply prefix_app_r.
    + by rewrite app_nil_r.
Qed.

Lemma names_passed_cons (st : Stmt) (p : list Stmt) :
  names_passed (st :: p) = names_passed [st] ++ names_passed p.
Proof. by destruct st. Qed.

Lemma resource_objects_new (s : Session) (o : AwsResource) :
  handles_ok s →
  resource_objects {| heap := heap s ++ [o]; resources := resources s |}
  = resource_objects s.
Proof.
  unfold handles_ok, resource_objects. simpl.
  induction 1 as [|h hs Hh Hhs IH]; [done |].
  cbn. rewrite lookup_app_l by done. by rewrite IH.
Qed.

Lemma CdkStack_drawioCsv_flat_nodes (instanceId loadBalancerName : string) :
  CdkStack_drawioCsv_flat instanceId loadBalancerName
  = drawioCsv [ ApplicationLoadBalancer loadBalancerName;
                addRef (Ec2Instance instanceId) loadBalancerName ].
Proof.
  unfold drawioCsv.
  change (map toCsvLine _)
    with [ toCsvLine (ApplicationLoadBalancer loadBalancerName);
           toCsvLine (addRef (Ec2Instance instanceId) loadBalancerName) ].
  rewrite toCsvLine_instance, toCsvLine_balancer, join_cons2.
  change (join nl [instance_row instanceId loadBalancerName])
    with (instance_row instanceId loadBalancerName).
  unfold CdkStack_drawioCsv_flat, instance_row, balancer_row.
  by rewrite !str_app_assoc.
Qed.

Lemma lines_template (rest : string) :
  lines (template_head +:+ rest)
  = "" :: directive_lines ++ [column_line] ++ lines rest.
Proof.
  change (template_head +:+ rest)
    with ((nl +:+ join nl directive_lines +:+ nl +:+ column_line)
            +:+ String nl_char rest).
  unfold lines. rewrite split_on_app.
  change (split_on nl_char (nl +:+ join nl directive_lines +:+ nl +:+ column_line))
    with ("" :: directive_lines ++ [column_line]).
  reflexivity.
Qed.

End Programs.

(** X6: a node that is constructed and not pushed is not rendered: a
    [new] at the end of a program leaves the rendered text as it was. *)
Theorem unpushed_node_not_rendered (p : list Stmt) (s : Session)
    (k : ResourceKind) (n : string) :
  run p empty_session = Normal (tt, s) →
  build_then_render p empty_session
  = Normal (drawioCsv (resource_objects s), s)
  ∧ build_then_render (p ++ [SNew k n]) empty_session
    = Normal (drawioCsv (resource_objects s),
              {| heap := heap s ++ [construct k n]; resources := resources s |}).
Proof.
  intros Hrun.
  assert (handles_ok s) as Hok.
  { eapply run_handles_ok; [apply empty_handles_ok | done]. }
  split.
  - unfold build_then_render, bind. rewrite Hrun. by apply render_ok.
  - assert (run (p ++ [SNew k n]) empty_session
            = Normal (tt, {| heap := heap s ++ [construct k n];
                             resources := resources s |})) as Hrun1.
    { by rewrite run_app, Hrun. }
    unfold build_then_render, bind. rewrite Hrun1.
    rewrite <- (resource_objects_new s (construct k n) Hok).
    apply render_ok.
    eapply exec_handles_ok; [exact Hok |]. by instantiate (1 := SNew k n).
Qed.

Lemma unpushed_node_not_rendered_witness :
  run scenario_A empty_session = Normal (tt, session_A)
  ∧ build_then_render (scenario_A ++ [SNew ComputeInstance "i-2"]) empty_session
    = Normal (drawioCsv (resource_objects session_A),
              {| heap := heap session_A ++ [construct ComputeInstance "i-2"];
                 resources := resources session_A |}).
Proof.
  split; [reflexivity |].
  exact (proj2 (unpushed_node_not_rendered scenario_A session_A
                  ComputeInstance "i-2" eq_refl)).
Defined.

(** X7: the array holds references, not copies: pushing a node and then
    adding a reference to it leaves the same store as adding the reference
    first and pushing then, so the reference is rendered either way. *)
Theorem push_addRef_commute (s : Session) (hs : list nat) (h : nat)
    (o : AwsResource) (t : string) :
  Forall (λ h', h' < length (heap s)) hs →
  heap s !! h = Some o →
  run [SPush hs; SAddRef h (Lit t)] s
  = Normal (tt, {| heap := <[h := addRef o t]> (heap s);
                   resources := resources s ++ hs |})
  ∧ run [SAddRef h (Lit t); SPush hs] s
    = run [SPush hs; SAddRef h (Lit t)] s.
Proof.
  intros Hhs Ho.
  assert (run [SPush hs; SAddRef h (Lit t)] s
          = Normal (tt, {| heap := <[h := addRef o t]> (heap s);
                           resources := resources s ++ hs |})) as Hleft.
  { rewrite run_cons, (push_stmt_ok s hs Hhs). cbv beta iota.
    rewrite run_cons.
    by rewrite (addRef_stmt_ok
                  {| heap := heap s; resources := resources s ++ hs |}
                  h o t Ho). }
  split; [exact Hleft |]. rewrite Hleft.
  rewrite run_cons, (addRef_stmt_ok s h o t Ho). cbv beta iota.
  rewrite run_cons, push_stmt_ok; [done |].
  simpl. by rewrite length_insert.
Qed.

Lemma push_addRef_commute_witness :
  run [SPush [0]; SAddRef 0 (Lit "alb-1")] session_i1
  = Normal (tt, {| heap := [addRef (Ec2Instance "i-1") "alb-1"];
                   resources := [0] |})
  ∧ run [SAddRef 0 (Lit "alb-1"); SPush [0]] session_i1
    = run [SPush [0]; SAddRef 0 (Lit "alb-1")] session_i1.
Proof.
  apply (push_addRef_commute session_i1 [0] 0 (Ec2Instance "i-1") "alb-1").
  - repeat constructor.
  - reflexivity.
Defined.

(** X8: whatever the program, a run that ends normally only grows the
    store: every node that was there is still at its place with the same
    name and style and with its old references as a prefix of the new
    ones, the array is the old one extended, and the names in the store
    are the old names followed by the names passed to the constructors. *)
Theorem run_only_grows (p : list Stmt) (s s' : Session) :
  run p s = Normal (tt, s') →
  session_grows s s'
  ∧ map name (heap s') = map name (heap s) ++ names_passed p.
Proof.
  revert s. induction p as [|st p IH]; intros s.
  - intros [= <-]. split; [apply session_grows_refl |].
    simpl. by rewrite app_nil_r.
  - rewrite run_cons.
    destruct (exec st s) as [[[] s1]|e] eqn:Hst; [|done].
    intros Hrun. destruct (exec_grows _ _ _ Hst) as [Hg1 Hn1].
    destruct (IH _ Hrun) as [Hg2 Hn2]. split.
    + by eapply session_grows_trans.
    + by rewrite Hn2, Hn1, (names_passed_cons st p), app_assoc.
Qed.

Lemma run_only_grows_witness :
  session_grows session_i1
    {| heap := [ addRef (Ec2Instance "i-1") "alb-1";
                 ApplicationLoadBalancer "alb-1" ];
       resources := [1; 0] |}
  ∧ map name [ addRef (Ec2Instance "i-1") "alb-1";
               ApplicationLoadBalancer "alb-1" ]
    = map name (heap session_i1) ++ ["alb-1"].
Proof.
  exact (run_only_grows
           [SAddRef 0 (Lit "alb-1"); SNew LoadBalancer "alb-1"; SPush [1; 0]]
           session_i1
           {| heap := [ addRef (Ec2Instance "i-1") "alb-1";
                        ApplicationLoadBalancer "alb-1" ];
              resources := [1; 0] |} eq_refl).
Defined.

(** X9: for identifiers that are valid names the two versions of the
    stack never give the same text: read back, the class-based text has
    the instance first and the load balancer second, the flat text the
    load balancer first; in both the only reference is the load
    balancer. *)
Theorem variants_differ_for_valid_names (instanceId loadBalancerName : string) :
  valid_name instanceId = true →
  valid_name loadBalancerName = true →
  component_column (CdkStack_drawioCsv instanceId loadBalancerName)
  = [instanceId; loadBalancerName]
  ∧ refs_column (CdkStack_drawioCsv instanceId loadBalancerName)
    = [loadBalancerName]
  ∧ component_column (CdkStack_drawioCsv_flat instanceId loadBalancerName)
    = [loadBalancerName; instanceId]
  ∧ refs_column (CdkStack_drawioCsv_flat instanceId loadBalancerName)
    = [loadBalancerName]
  ∧ CdkStack_drawioCsv instanceId loadBalancerName
    ≠ CdkStack_drawioCsv_flat instanceId loadBalancerName.
Proof.
  intros Hi Ha.
  set (ec2Model := addRef (Ec2Instance instanceId) loadBalancerName).
  set (albModel := ApplicationLoadBalancer loadBalancerName).
  assert (node_ok ec2Model) as Hec2.
  { apply addRef_node_ok; [|done]. by apply (construct_node_ok ComputeInstance). }
  assert (node_ok albModel) as Halb.
  { by apply (construct_node_ok LoadBalancer). }
  assert (CdkStack_drawioCsv instanceId loadBalancerName
          = drawioCsv [ec2Model; albModel]) as Hclass by reflexivity.
  pose proof (CdkStack_drawioCsv_flat_nodes instanceId loadBalancerName) as Hflat.
  fold ec2Model albModel in Hflat.
  assert (Forall node_ok [ec2Model; albModel]) as H1 by (by repeat constructor).
  assert (Forall node_ok [albModel; ec2Model]) as H2 by (by repeat constructor).
  destruct (columns_drawioCsv _ H1) as [Hc1 Hr1].
  destruct (columns_drawioCsv _ H2) as [Hc2 Hr2].
  rewrite Hclass, Hflat, Hc1, Hr1, Hc2, Hr2.
  repeat split; try done.
  intros Heq.
  assert (data_rows (drawioCsv [ec2Model; albModel])
          = data_rows (drawioCsv [albModel; ec2Model])) as Hrows
    by (by rewrite Heq).
  rewrite !data_rows_drawioCsv in Hrows.
  - injection Hrows as Hrow _.
    apply toCsvLine_inj in Hrow; [|done..]. discriminate Hrow.
  - eapply Forall_impl; [exact H2 |]. intros o Ho.
    by apply node_ok_row in Ho as (? & _ & _).
  - eapply Forall_impl; [exact H1 |]. intros o Ho.
    by apply node_ok_row in Ho as (? & _ & _).
Qed.

Lemma variants_differ_for_valid_names_witness :
  component_column (CdkStack_drawioCsv "i-0abc" "web-alb") = ["i-0abc"; "web-alb"]
  ∧ component_column (CdkStack_drawioCsv_flat "i-0abc" "web-alb")
    = ["web-alb"; "i-0abc"]
  ∧ CdkStack_drawioCsv "i-0abc" "web-alb"
    ≠ CdkStack_drawioCsv_flat "i-0abc" "web-alb".
Proof.
  pose proof (variants_differ_for_valid_names "i-0abc" "web-alb" eq_refl eq_refl)
    as (Hc1 & _ & Hc2 & _ & Hne).
  exact (conj Hc1 (conj Hc2 Hne)).
Defined.

(** X10: when no row holds a line break, the lines of the rendered text
    are an empty line, the directive lines, the column line, the rows of
    the nodes and an empty line; with no node at all there is one more
    empty line where the rows would be. *)
Theorem lines_drawioCsv (rs : list AwsResource) :
  Forall (λ o, contains nl_char (toCsvLine o) = false) rs →
  lines (drawioCsv rs)
  = "" :: directive_lines ++ [column_line]
      ++ match rs with
         | [] => [""]
         | _ :: _ => map toCsvLine rs
         end ++ [""]
  ∧ length (lines (drawioCsv rs)) = 16 + Nat.max 1 (length rs).
Proof.
  intros Hrs.
  assert (lines (drawioCsv rs)
          = "" :: directive_lines ++ [column_line]
              ++ match rs with
                 | [] => [""]
                 | _ :: _ => map toCsvLine rs
                 end ++ [""]) as Hlines.
  { unfold drawioCsv. rewrite lines_template, lines_snoc_nl.
    destruct rs as [|r rs]; [done |].
    unfold lines at 1, nl. rewrite split_on_join; [done | done |].
    apply Forall_forall. intros row [o [<- Ho]]%list_elem_of_In%in_map_iff.
    apply list_elem_of_In in Ho.
    by apply (proj1 (Forall_forall _ _) Hrs). }
  split; [exact Hlines |]. rewrite Hlines.
  destruct rs as [|r rs]; [done |].
  simpl. rewrite length_app, length_map. simpl. lia.
Qed.

Lemma lines_drawioCsv_witness :
  lines (drawioCsv [])
  = "" :: directive_lines ++ [column_line] ++ [""] ++ [""]
  ∧ length (lines (drawioCsv [])) = 17.
Proof. exact (lines_drawioCsv [] (Forall_nil_2 _)). Defined.

(** ** Line breaks and rows *)

Section LineBreaks.

Lemma contains_join_existsb (c : ascii) (sep : string) (xs : list string) :
  contains c sep = false →
  contains c (join sep xs) = existsb (contains c) xs.
Proof.
  intros Hsep. induction xs as [|x rest IH]; [done |].
  destruct rest as [|y rest].
  - simpl. by rewrite orb_false_r.
  - rewrite join_cons2, !contains_app, Hsep, IH. done.
Qed.

Lemma str_length_app (s1 s2 : string) :
  String.length (s1 +:+ s2) = String.length s1 + String.length s2.
Proof.
  induction s1 as [|a s1 IH]; [done |].
  rewrite str_app_cons. simpl. by rewrite IH.
Qed.

End LineBreaks.

(** X11: the row of a node holds a line break exactly when its name, one
    of its style fields or one of its references does; the commas the row
    adds never break a line. *)
Theorem row_line_break (o : AwsResource) :
  contains nl_char (toCsvLine o)
  = contains nl_char (name o) || contains nl_char (fill o)
    || contains nl_char (stroke o) || contains nl_char (shape o)
    || existsb (contains nl_char) (refs o).
Proof.
  unfold toCsvLine.
  rewrite !contains_app, contains_join_existsb by done.
  change (contains nl_char comma) with false.
  rewrite !orb_false_l. by rewrite !orb_assoc.
Qed.

(** X12: rendering one more node at the end of a non-empty list adds the
    row of that node and a line break at the end of the text and changes
    nothing before; from the empty list the text is not extended in this
    way, as the text for no node has a blank line where the first row
    goes. *)
Theorem drawioCsv_snoc (rs : list AwsResource) (r : AwsResource) :
  rs ≠ [] →
  drawioCsv (rs ++ [r]) = drawioCsv rs +:+ toCsvLine r +:+ nl
  ∧ drawioCsv ([] ++ [r]) ≠ drawioCsv [] +:+ toCsvLine r +:+ nl.
Proof.
  intros Hne. split.
  - unfold drawioCsv. rewrite map_app. simpl (map toCsvLine [r]).
    rewrite join_snoc. destruct rs as [|r0 rs]; [done |].
    change (map toCsvLine (r0 :: rs))
      with (toCsvLine r0 :: map toCsvLine rs).
    by rewrite !str_app_assoc.
  - unfold drawioCsv. simpl ([] ++ [r]).
    change (join nl (map toCsvLine [r])) with (toCsvLine r).
    change (join nl (map toCsvLine [])) with "".
    rewrite !str_app_assoc. intros Heq%(inj (String.app template_head)).
    apply (f_equal String.length) in Heq.
    rewrite !str_length_app in Heq. simpl in Heq. lia.
Qed.

Lemma drawioCsv_snoc_witness :
  drawioCsv ([ApplicationLoadBalancer "alb-1"] ++ [Ec2Instance "i-1"])
  = drawioCsv [ApplicationLoadBalancer "alb-1"]
      +:+ toCsvLine (Ec2Instance "i-1") +:+ nl.
Proof.
  refine (proj1 (drawioCsv_snoc [ApplicationLoadBalancer "alb-1"]
                   (Ec2Instance "i-1") _)).
  discriminate.
Defined.
